(** * The platform VM's staker ledger: staker ordering, staker lifecycle and
    the validator weight-diff codec

  A shallow embedding of two files of package [state]:
  - the staker record, its comparator [Less] and its lifecycle functions
    ([NewCurrentStaker], [NewPendingStaker], [ShiftStakerAheadInPlace],
    [EarliestStopTime], [MarkStakerForRemovalInPlaceBeforeTime]);
  - the diff codec ([marshalDiffKey], [unmarshalDiffKey],
    [marshalWeightDiff], [unmarshalWeightDiff], [packIterableHeight],
    [unpackIterableHeight]).

  Conventions of the embedding.
  - A [uint64] is a [Z] in [0, 2^64); operations that can leave the range
    reduce modulo [2^64] explicitly.
  - A byte slice is a [list byte]; [ids.ID] is the list of its 32 bytes.
  - A [time.Time] is identified with the instant it denotes and a
    [time.Duration] with its signed length, both counted in nanoseconds as
    integers; [Before], [Equal], [Add] and [Sub] are the comparisons and the
    arithmetic of instants.
  - A function that takes a [*Staker] and updates it in place is a function
    from the record before the call to the record after it.
  - Go's [(value, error)] results are kept as pairs of options. *)

From Stdlib Require Import ZArith String List Bool Lia.
From coqutil Require Import Byte.
Import ListNotations.
Local Open Scope Z_scope.

(* ================================================================= *)
(** * Byte slices and the standard-library primitives the code calls *)

Module GoBytes.

(** [make([]byte, n)]: [n] zero bytes. *)
Definition make (n : nat) : list byte := repeat Byte.x00 n.

(** The builtin [copy(dst, src)]: overwrites the first
    [min (len dst) (len src)] bytes of [dst] with those of [src]; the
    result is [dst] after the call. *)
Definition copy (dst src : list byte) : list byte :=
  firstn (length dst) src ++ skipn (length src) dst.

(** [copy(dst[off:], src)] seen from [dst] (the slice shares its array). *)
Definition copy_at (off : nat) (dst src : list byte) : list byte :=
  firstn off dst ++ copy (skipn off dst) src.

(** [dst[i] = b] for an index within bounds. *)
Definition store (i : nat) (dst : list byte) (b : byte) : list byte :=
  copy_at i dst [b].

(** [bytes.Compare]: lexicographic comparison of byte slices by unsigned
    byte value; -1, 0 or 1. *)
Fixpoint Compare (a b : list byte) : Z :=
  match a, b with
  | [], [] => 0
  | [], _ :: _ => -1
  | _ :: _, [] => 1
  | x :: a', y :: b' =>
      match byte.compare x y with
      | Lt => -1
      | Gt => 1
      | Eq => Compare a' b'
      end
  end.

(** Array equality [a == b] on byte arrays. *)
Fixpoint eqb (a b : list byte) : bool :=
  match a, b with
  | [], [] => true
  | x :: a', y :: b' => Byte.eqb x y && eqb a' b'
  | _, _ => false
  end.

End GoBytes.

(** The strict lexicographic order on byte sequences, stated on its own:
  a proper prefix comes first, otherwise the first differing byte decides. *)
Inductive lex_lt : list byte -> list byte -> Prop :=
| lex_lt_nil : forall y b, lex_lt [] (y :: b)
| lex_lt_head : forall x y a b,
  byte.unsigned x < byte.unsigned y -> lex_lt (x :: a) (y :: b)
| lex_lt_tail : forall x a b, lex_lt a b -> lex_lt (x :: a) (x :: b).

Module Uint64.

Definition modulus : Z := 2 ^ 64.

(** Conversion [uint64(x)] of an integer expression: wrap-around. *)
Definition wrap (x : Z) : Z := x mod modulus.

(** [^x] on a [uint64]. *)
Definition not (x : Z) : Z := wrap (Z.lnot x).

Definition in_range (x : Z) : Prop := 0 <= x < modulus.

End Uint64.

Module BigEndian.

(** [binary.BigEndian.PutUint64(b, v)]: the eight bytes of [v], most
    significant first, written over the first eight bytes of [b].  The
    library call panics on a shorter [b]; both callers pass at least
    eight bytes. *)
Definition bytes_of_uint64 (v : Z) : list byte :=
  [ byte.of_Z (Z.shiftr v 56); byte.of_Z (Z.shiftr v 48);
    byte.of_Z (Z.shiftr v 40); byte.of_Z (Z.shiftr v 32);
    byte.of_Z (Z.shiftr v 24); byte.of_Z (Z.shiftr v 16);
    byte.of_Z (Z.shiftr v 8);  byte.of_Z v ].

Definition PutUint64 (b : list byte) (v : Z) : list byte :=
  GoBytes.copy b (bytes_of_uint64 v).

(** [binary.BigEndian.Uint64(b)]:
    [b[7] | b[6]<<8 | ... | b[0]<<56] on the first eight bytes of [b]. *)
Definition Uint64 (b : list byte) : Z :=
  let u i := byte.unsigned (nth i b Byte.x00) in
  Z.lor (u 7%nat)
    (Z.lor (Z.shiftl (u 6%nat) 8)
       (Z.lor (Z.shiftl (u 5%nat) 16)
          (Z.lor (Z.shiftl (u 4%nat) 24)
             (Z.lor (Z.shiftl (u 3%nat) 32)
                (Z.lor (Z.shiftl (u 2%nat) 40)
                   (Z.lor (Z.shiftl (u 1%nat) 48)
                      (Z.shiftl (u 0%nat) 56))))))).

End BigEndian.

(* ================================================================= *)
(** * Packages [ids], [database], [time] *)

(** Go's [error] values, identified by their message. *)
Definition error : Type := string.

Module ids.

(** Modelled from the spec: the declaration of [ids.ID] is not among the
    sources; the persisted layout gives a subnetID 32 raw bytes. *)
Definition IDLen : nat := 32.

(** [ids.ID], a 32-byte array, as the list of its bytes. *)
Definition ID : Type := list byte.

Definition wf_ID (id : ID) : Prop := length id = IDLen.

(** [ids.Empty], the zero value of the array. *)
Definition Empty : ID := GoBytes.make IDLen.

(** [id.Bytes()]. *)
Definition Bytes (id : ID) : list byte := id.

End ids.

Module database.

(** Modelled from the spec: the constants of package [database] are not
    among the sources; the persisted layout gives a height and an amount 8
    bytes each and the flag 1 byte, 0x01 for a decrease. *)
Definition Uint64Size : nat := 8.
Definition BoolSize : nat := 1.
Definition BoolTrue : byte := Byte.x01.

End database.

Module time.

Definition Time : Type := Z.
Definition Duration : Type := Z.

Definition Before (t u : Time) : bool := t <? u.

End time.


(* ================================================================= *)
(** * Declarations the two files import from elsewhere in the repository *)

(** The packages [ids] (for [NodeID]), [bls], [txs], [mockable] and
    [constants] are imported by the two files but their declarations are not
    among the sources at hand.  What the code uses of them is taken as a
    parameter: the node identifier type with [len(nodeID)], [nodeID.Bytes()],
    [ids.NodeIDFromBytes] and [ids.EmptyNodeID]; the type of BLS public keys;
    the methods [IsPending] and [IsValidator] of [txs.Priority]; the constant
    [mockable.MaxTime]; the constant [constants.PrimaryNetworkID]. *)
Class Decls : Type := {
  ids_NodeID : Type;
  ids_NodeID_len : ids_NodeID -> nat;
  ids_NodeID_Bytes : ids_NodeID -> list byte;
  ids_NodeIDFromBytes : list byte -> ids_NodeID;
  ids_EmptyNodeID : ids_NodeID;
  bls_PublicKey : Type;
  txs_IsPending : Z -> bool;
  txs_IsValidator : Z -> bool;
  mockable_MaxTime : time.Time;
  constants_PrimaryNetworkID : ids.ID
}.

(** What a node identifier type owes its users: [len(nodeID)] is the number
    of bytes [nodeID.Bytes()] returns, and [ids.NodeIDFromBytes] rebuilds an
    identifier from its bytes. *)
Class NodeIDLaws (D : Decls) : Prop := {
  ids_NodeID_len_Bytes :
    forall n : ids_NodeID, ids_NodeID_len n = length (ids_NodeID_Bytes n);
  ids_NodeIDFromBytes_Bytes :
    forall n : ids_NodeID, ids_NodeIDFromBytes (ids_NodeID_Bytes n) = n
}.

Module txs.

(** Modelled from the spec: [txs.Priority] is not among the sources; the spec
    describes a small enumerated tag, compared by its numeric value. *)
Definition Priority : Type := Z.

(** The methods of the interface [txs.Staker] that [NewCurrentStaker] calls.
    They are getters: a call observes the transaction and changes nothing. *)
Class Staker `{Decls} (T : Type) : Type := {
  SubnetID : T -> ids.ID;
  NodeID : T -> ids_NodeID;
  PublicKey : T -> option bls_PublicKey * bool * option error;
  Weight : T -> Z;
  StakingPeriod : T -> time.Duration;
  CurrentPriority : T -> Priority
}.


End txs.

(* ================================================================= *)
(** * Package [state]: the diff codec *)

Module state.

(** startDiffKey = [subnetID] + [inverseHeight] *)
Definition startDiffKeyLength : nat := ids.IDLen + database.Uint64Size.
(** diffKeyNodeIDOffset = [subnetIDLen] + [inverseHeightLen] *)
Definition diffKeyNodeIDOffset : nat := ids.IDLen + database.Uint64Size.
(** weightValue = [isNegative] + [weight] *)
Definition weightValueLength : nat := database.BoolSize + database.Uint64Size.

Definition errUnexpectedZeroLenghtNodeID : error := "nodeID has zero length"%string.
Definition errUnexpectedWeightValueLength : error :=
  "expected weight value length 9"%string.

(** [ValidatorWeightDiff]: the two fields the codec reads and writes. *)
Record ValidatorWeightDiff : Type := {
  Decrease : bool;
  Amount : Z
}.

(** [packIterableHeight(key, height)]: [key] after the call. *)
Definition packIterableHeight (key : list byte) (height : Z) : list byte :=
  BigEndian.PutUint64 key (Uint64.not height).

Definition unpackIterableHeight (key : list byte) : Z :=
  Uint64.not (BigEndian.Uint64 key).

(** [packIterableHeight(key[off:], height)] seen from [key]. *)
Definition packIterableHeight_at (off : nat) (key : list byte) (height : Z)
  : list byte :=
  firstn off key ++ packIterableHeight (skipn off key) height.

Definition marshalStartDiffKey (subnetID : ids.ID) (height : Z) : list byte :=
  let key := GoBytes.make startDiffKeyLength in
  let key := GoBytes.copy key (ids.Bytes subnetID) in
  let key := packIterableHeight_at ids.IDLen key height in
  key.

Definition marshalDiffKey `{Decls}
  (subnetID : ids.ID) (height : Z) (nodeID : ids_NodeID) : list byte :=
  let key := GoBytes.make (startDiffKeyLength + ids_NodeID_len nodeID) in
  let key := GoBytes.copy key (ids.Bytes subnetID) in
  let key := packIterableHeight_at ids.IDLen key height in
  let key := GoBytes.copy_at diffKeyNodeIDOffset key (ids_NodeID_Bytes nodeID) in
  key.

Definition unmarshalDiffKey `{Decls} (key : list byte)
  : ids.ID * Z * ids_NodeID * option error :=
  if (length key <? startDiffKeyLength)%nat then
    (ids.Empty, 0, ids_EmptyNodeID, Some errUnexpectedZeroLenghtNodeID)
  else
    let subnetID := GoBytes.copy ids.Empty key in
    let height := unpackIterableHeight (skipn ids.IDLen key) in
    let nodeID := ids_NodeIDFromBytes (skipn diffKeyNodeIDOffset key) in
    (subnetID, height, nodeID, None).

Definition marshalWeightDiff (diff : ValidatorWeightDiff) : list byte :=
  let value := GoBytes.make weightValueLength in
  let value :=
    if Decrease diff then GoBytes.store 0 value database.BoolTrue else value in
  let value :=
    firstn database.BoolSize value
      ++ BigEndian.PutUint64 (skipn database.BoolSize value) (Amount diff) in
  value.

Definition unmarshalWeightDiff (value : list byte)
  : option ValidatorWeightDiff * option error :=
  if negb (length value =? weightValueLength)%nat then
    (None, Some errUnexpectedWeightValueLength)
  else
    (Some {| Decrease := Byte.eqb (nth 0 value Byte.x00) database.BoolTrue;
             Amount := BigEndian.Uint64 (skipn database.BoolSize value) |},
     None).

(** ** Package [state]: stakers *)

(** Staker contains all information required to represent a validator or
    delegator in the current and pending validator sets. *)
Record Staker `{Decls} : Type := {
  TxID : ids.ID;
  NodeID : ids_NodeID;
  PublicKey : option bls_PublicKey;
  SubnetID : ids.ID;
  Weight : Z;
  StartTime : time.Time;
  StakingPeriod : time.Duration;
  EndTime : time.Time;
  PotentialReward : Z;
  NextTime : time.Time;
  Priority : txs.Priority
}.



Definition set_EndTime `{Decls} (s : Staker) (v : time.Time) : Staker :=
  {| TxID := TxID s; NodeID := NodeID s; PublicKey := PublicKey s;
     SubnetID := SubnetID s; Weight := Weight s; StartTime := StartTime s;
     StakingPeriod := StakingPeriod s; EndTime := v;
     PotentialReward := PotentialReward s; NextTime := NextTime s;
     Priority := Priority s |}.

(** A *Staker is considered to be less than another *Staker when:
    1. its NextTime is before the other's;
    2. the NextTimes are the same and it has the lesser priority;
    3. the priorities are also the same and it has the lesser txID. *)
Definition Less `{Decls} (s than : Staker) : bool :=
  if time.Before (NextTime s) (NextTime than) then true
  else if time.Before (NextTime than) (NextTime s) then false
  else if Priority s <? Priority than then true
  else if Priority than <? Priority s then false
  else GoBytes.Compare (TxID s) (TxID than) =? -1.







End state.

(* ================================================================= *)
(** * The ordering rule as the specification words it *)

(** The sort key of a staker. *)
Definition sort_key `{Decls} (s : state.Staker)
  : time.Time * txs.Priority * ids.ID :=
  (state.NextTime s, state.Priority s, state.TxID s).

(** Earlier [nextTime] sorts first; if [nextTime] is equal, lower [priority]
    value sorts first; if still tied, lexicographically smaller [txID] byte
    sequence sorts first. *)
Definition spec_staker_lt `{Decls} (a b : state.Staker) : Prop :=
  state.NextTime a < state.NextTime b
  \/ (state.NextTime a = state.NextTime b
      /\ (state.Priority a < state.Priority b
          \/ (state.Priority a = state.Priority b
              /\ lex_lt (state.TxID a) (state.TxID b)))).

(* ================================================================= *)
(** * Big-endian bytes of any width *)

(** The [n] low-order bytes of [v], most significant first; the eight bytes
    [PutUint64] writes are [be_bytes 8]. *)
Fixpoint be_bytes (n : nat) (v : Z) : list byte :=
  match n with
  | O => []
  | S m => byte.of_Z (Z.shiftr v (8 * Z.of_nat m)) :: be_bytes m v
  end.

(* ================================================================= *)
(** * Package [bootstrapmonitor]: image names *)

(** Go strings are byte sequences; the functions of package [strings] the
    code calls, for a separator of one byte. *)
Module strings.

(** [strings.Contains(s, sep)] for a one-byte [sep]. *)
Definition Contains (s : list byte) (sep : byte) : bool :=
  existsb (Byte.eqb sep) s.

(** [strings.Split(s, sep)] for a one-byte [sep]: the pieces of [s] between
    the occurrences of [sep]; a string without [sep] (also the empty one) is
    its own single piece. *)
Fixpoint Split (s : list byte) (sep : byte) : list (list byte) :=
  match s with
  | [] => [[]]
  | c :: s' =>
      if Byte.eqb c sep then [] :: Split s' sep
      else match Split s' sep with
           | part :: parts => (c :: part) :: parts
           | [] => [[c]]
           end
  end.

(** [strings.Join(elems, sep)]. *)
Fixpoint Join (elems : list (list byte)) (sep : list byte) : list byte :=
  match elems with
  | [] => []
  | [e] => e
  | e :: rest => e ++ sep ++ Join rest sep
  end.

End strings.

Module bootstrapmonitor.

Definition at_sign : byte := Byte.x40.
Definition colon : byte := Byte.x3a.

(** The error [fmt.Errorf("unexpected image name format: %q", imageName)],
    kept as the image name it reports. *)
Inductive image_error : Type :=
| errUnexpectedImageNameFormat (imageName : list byte).

(** getBaseImageName removes the tag from the image name.  The call to
    [log.Printf] in the two-piece case writes to the log and is left out. *)
Definition getBaseImageName (imageName : list byte)
  : list byte * option image_error :=
  if strings.Contains imageName at_sign then
    (* Image name contains a digest, remove it *)
    (nth 0 (strings.Split imageName at_sign) [], None)
  else
    let imageNameParts := strings.Split imageName colon in
    match length imageNameParts with
    | 1%nat => (* No tag or registry *) (imageName, None)
    | 2%nat =>
        (* Ambiguous image name - could contain a tag or a registry *)
        (nth 0 imageNameParts [], None)
    | 3%nat =>
        (* Image name contains a registry and a tag - remove the tag *)
        (strings.Join (firstn 2 imageNameParts) [colon], None)
    | _ => ([], Some (errUnexpectedImageNameFormat imageName))
    end.

End bootstrapmonitor.

(* ================================================================= *)
(** * Package [node]: the transaction ID of an unprotected validator *)

Module node.

(** The transaction ID [insecureValidatorManager.Connected] builds for a
    peer of the primary network before it adds the peer as a validator:
    [dummyTxID := ids.Empty; copy(dummyTxID[:], vdrID.Bytes())], the nodeID
    padded with zeroes. *)
Definition dummyTxID `{Decls} (vdrID : ids_NodeID) : ids.ID :=
  let dummyTxID := ids.Empty in
  GoBytes.copy dummyTxID (ids_NodeID_Bytes vdrID).

End node.

(* ================================================================= *)
(** * A concrete setting, used to run the definitions *)

Module Sample.

(** Node identifiers kept as their raw bytes; priorities up to 6 pending,
    the even ones validators; the primary network is the zero ID. *)
Definition decls : Decls := {|
  ids_NodeID := list byte;
  ids_NodeID_len := @length byte;
  ids_NodeID_Bytes := fun n => n;
  ids_NodeIDFromBytes := fun b => b;
  ids_EmptyNodeID := [];
  bls_PublicKey := list byte;
  txs_IsPending := fun p => p <=? 6;
  txs_IsValidator := Z.even;
  mockable_MaxTime := (2 ^ 63 - 62135596801) * 1000000000;
  constants_PrimaryNetworkID := ids.Empty
|}.




Definition id_of (b : byte) : ids.ID := repeat b ids.IDLen.

Definition node_of (b : byte) : list byte := repeat b 20.

(** A 59-byte key: 32 bytes 0x01, the flipped height 5, 19 bytes 0x07. *)
Definition key59 : list byte :=
  id_of Byte.x01 ++ BigEndian.bytes_of_uint64 (Uint64.not 5)
    ++ repeat Byte.x07 19.

Definition staker (txID : ids.ID) (start : time.Time) (period : time.Duration)
  (end_ next : time.Time) (prio : txs.Priority) : @state.Staker decls :=
  {| state.TxID := txID;
     state.NodeID := node_of Byte.x07 : @ids_NodeID decls;
     state.PublicKey := None;
     state.SubnetID := ids.Empty;
     state.Weight := 2000;
     state.StartTime := start;
     state.StakingPeriod := period;
     state.EndTime := end_;
     state.PotentialReward := 0;
     state.NextTime := next;
     state.Priority := prio |}.

(** Three stakers due at the same time: [s_a] and [s_b] differ in TxID only,
    [s_c] has a higher priority. *)
Definition s_a : @state.Staker decls := staker (id_of Byte.x01) 0 100 10000 50 7.
Definition s_b : @state.Staker decls := staker (id_of Byte.x02) 0 100 10000 50 7.
Definition s_c : @state.Staker decls := staker (id_of Byte.x01) 0 100 10000 50 9.






(** Image names. *)
Definition image_plain : list byte := list_byte_of_string "avalanchego".
Definition image_tagged : list byte :=
  list_byte_of_string "localhost:5001/avalanchego:v1.11.0".
Definition image_digest : list byte :=
  list_byte_of_string "avaplatform/avalanchego@sha256:0123".
Definition image_odd : list byte := list_byte_of_string "a:b:c:d".

(** A weight diff value of 9 bytes with the flag 0x01 and the amount 20. *)
Definition value9 : list byte :=
  Byte.x01 :: BigEndian.bytes_of_uint64 20.

End Sample.

(* ================================================================= *)
(** * Facts about the byte-level primitives *)

Lemma byte_compare_eq (x y : byte) : byte.compare x y = Eq <-> x = y.
Proof.
  unfold byte.compare. rewrite Z.compare_eq_iff. split.
  - apply byte.unsigned_inj.
  - now intros ->.
Qed.

Lemma byte_compare_refl (x : byte) : byte.compare x x = Eq.
Proof. now apply byte_compare_eq. Qed.

Lemma byte_compare_lt (x y : byte) :
  byte.compare x y = Lt <-> byte.unsigned x < byte.unsigned y.
Proof. unfold byte.compare. apply Z.compare_lt_iff. Qed.

Lemma byte_compare_gt (x y : byte) :
  byte.compare x y = Gt <-> byte.unsigned y < byte.unsigned x.
Proof. unfold byte.compare. apply Z.compare_gt_iff. Qed.

Lemma Compare_values (a b : list byte) :
  GoBytes.Compare a b = -1 \/ GoBytes.Compare a b = 0 \/ GoBytes.Compare a b = 1.
Proof.
  revert b; induction a as [|x a IH]; intros [|y b]; simpl; auto.
  destruct (byte.compare x y); auto.
Qed.

Lemma Compare_lt_iff (a b : list byte) :
  GoBytes.Compare a b = -1 <-> lex_lt a b.
Proof.
  revert b; induction a as [|x a IH]; intros [|y b]; simpl.
  - split; [discriminate | inversion 1].
  - split; [constructor | reflexivity].
  - split; [discriminate | inversion 1].
  - destruct (byte.compare x y) eqn:E.
    + apply byte_compare_eq in E; subst y. rewrite IH. split.
      * now constructor.
      * inversion 1; subst; [lia | assumption].
    + apply byte_compare_lt in E. split; [now constructor | reflexivity].
    + apply byte_compare_gt in E. split; [discriminate |].
      inversion 1; subst; lia.
Qed.

Lemma Compare_eq_iff (a b : list byte) :
  GoBytes.Compare a b = 0 <-> a = b.
Proof.
  revert b; induction a as [|x a IH]; intros [|y b]; simpl;
    try (split; [reflexivity || discriminate | reflexivity || discriminate]).
  destruct (byte.compare x y) eqn:E.
  - apply byte_compare_eq in E; subst y. rewrite IH. split; congruence.
  - split; [discriminate |]. intros [= -> _].
    now rewrite byte_compare_refl in E.
  - split; [discriminate |]. intros [= -> _].
    now rewrite byte_compare_refl in E.
Qed.

Lemma Compare_flip (a b : list byte) :
  GoBytes.Compare b a = - GoBytes.Compare a b.
Proof.
  revert b; induction a as [|x a IH]; intros [|y b]; simpl; try reflexivity.
  unfold byte.compare. rewrite (Z.compare_antisym (byte.unsigned x)).
  destruct (byte.unsigned x ?= byte.unsigned y); simpl; auto.
Qed.

Lemma lex_lt_irrefl (a : list byte) : ~ lex_lt a a.
Proof.
  induction a as [|x a IH]; inversion 1; subst; [lia | auto].
Qed.

Lemma lex_lt_trans (a b c : list byte) :
  lex_lt a b -> lex_lt b c -> lex_lt a c.
Proof.
  intros Hab; revert c; induction Hab; intros c Hbc; inversion Hbc; subst;
    try (constructor; lia); try (now constructor).
  constructor 3. auto.
Qed.

Lemma lex_lt_total (a b : list byte) : a <> b -> lex_lt a b \/ lex_lt b a.
Proof.
  intros Hne.
  destruct (Compare_values a b) as [H | [H | H]].
  - left. now apply Compare_lt_iff.
  - apply Compare_eq_iff in H. contradiction.
  - right. apply Compare_lt_iff. rewrite Compare_flip. lia.
Qed.

(* ================================================================= *)
(** * The staker ordering *)

Lemma Less_spec `{Decls} (a b : state.Staker) :
  state.Less a b = true <-> spec_staker_lt a b.
Proof.
  unfold state.Less, spec_staker_lt, time.Before.
  destruct (Z.ltb_spec (state.NextTime a) (state.NextTime b)).
  { split; auto. }
  destruct (Z.ltb_spec (state.NextTime b) (state.NextTime a)).
  { split; [discriminate | lia]. }
  destruct (Z.ltb_spec (state.Priority a) (state.Priority b)).
  { split; [intros _; right; split; [lia | auto] | reflexivity]. }
  destruct (Z.ltb_spec (state.Priority b) (state.Priority a)).
  { split; [discriminate | lia]. }
  rewrite Z.eqb_eq, Compare_lt_iff. split.
  - intros L. right. split; [lia |]. right. split; [lia | exact L].
  - intros [? | [_ [? | [_ L]]]]; [lia | lia | exact L].
Qed.

Lemma spec_staker_lt_irrefl `{Decls} (a : state.Staker) : ~ spec_staker_lt a a.
Proof.
  unfold spec_staker_lt. intros [? | [_ [? | [_ L]]]]; try lia.
  now apply lex_lt_irrefl in L.
Qed.

Lemma spec_staker_lt_trans `{Decls} (a b c : state.Staker) :
  spec_staker_lt a b -> spec_staker_lt b c -> spec_staker_lt a c.
Proof.
  unfold spec_staker_lt.
  intros [? | [Et [? | [Ep L]]]] [? | [Et' [? | [Ep' L']]]];
    try (left; lia); right; (split; [lia |]); try (left; lia).
  right. split; [lia |]. eapply lex_lt_trans; eassumption.
Qed.

Lemma spec_staker_lt_total `{Decls} (a b : state.Staker) :
  sort_key a <> sort_key b -> spec_staker_lt a b \/ spec_staker_lt b a.
Proof.
  unfold sort_key, spec_staker_lt. intros Hne.
  destruct (Z.lt_total (state.NextTime a) (state.NextTime b))
    as [? | [Et | ?]]; [left; lia | | right; lia].
  destruct (Z.lt_total (state.Priority a) (state.Priority b))
    as [? | [Ep | ?]]; [left; right; split; [lia | left; lia] |
                      | right; right; split; [lia | left; lia]].
  assert (Hid : state.TxID a <> state.TxID b) by congruence.
  destruct (lex_lt_total _ _ Hid) as [L | L].
  - left. right. split; [lia |]. right. split; [lia | exact L].
  - right. right. split; [lia |]. right. split; [lia | exact L].
Qed.

Lemma Less_false_iff `{Decls} (a b : state.Staker) :
  state.Less a b = false <-> ~ spec_staker_lt a b.
Proof. rewrite <- Less_spec. destruct (state.Less a b); split; congruence. Qed.

(** C1. [Less] is a strict total order on stakers keyed by
    (NextTime, Priority, TxID): no staker is less than itself; the relation is
    transitive; of two stakers whose keys differ exactly one is less than the
    other; and [Less a b] holds exactly when [a] has the earlier NextTime, or
    the same NextTime and the smaller Priority, or the same NextTime and
    Priority and the lexicographically smaller TxID. *)
Theorem Less_strict_total_order `{Decls} :
  (forall a, state.Less a a = false)
  /\ (forall a b c,
        state.Less a b = true -> state.Less b c = true ->
        state.Less a c = true)
  /\ (forall a b,
        sort_key a <> sort_key b ->
        (state.Less a b = true /\ state.Less b a = false)
        \/ (state.Less a b = false /\ state.Less b a = true))
  /\ (forall a b, state.Less a b = true <-> spec_staker_lt a b).
Proof.
  split; [| split; [| split]].
  - intros a. apply Less_false_iff, spec_staker_lt_irrefl.
  - intros a b c Hab Hbc. apply Less_spec.
    apply Less_spec in Hab, Hbc. eapply spec_staker_lt_trans; eassumption.
  - intros a b Hne.
    assert (Hasym : spec_staker_lt a b -> spec_staker_lt b a -> False).
    { intros Hab Hba.
      exact (spec_staker_lt_irrefl a (spec_staker_lt_trans _ _ _ Hab Hba)). }
    destruct (spec_staker_lt_total a b Hne) as [L | L].
    + left. split; [now apply Less_spec | apply Less_false_iff; auto].
    + right. split; [apply Less_false_iff; auto | now apply Less_spec].
  - intros a b. apply Less_spec.
Qed.

(* ================================================================= *)
(** * Staker construction *)



(* ================================================================= *)
(** * Staker lifecycle *)




(* ================================================================= *)
(** * Marking a staker for removal *)








(* ================================================================= *)
(** * Slices *)

Lemma firstn_exact {A} (a b : list A) (n : nat) :
  n = length a -> firstn n (a ++ b) = a.
Proof.
  intros ->. rewrite firstn_app, firstn_all, Nat.sub_diag. simpl.
  apply app_nil_r.
Qed.

Lemma skipn_exact {A} (a b : list A) (n : nat) :
  n = length a -> skipn n (a ++ b) = b.
Proof.
  intros ->. rewrite skipn_app, skipn_all, Nat.sub_diag. reflexivity.
Qed.

Lemma skipn_make (k n : nat) :
  skipn k (GoBytes.make (k + n)) = GoBytes.make n.
Proof.
  unfold GoBytes.make. rewrite repeat_app.
  apply skipn_exact. now rewrite repeat_length.
Qed.

(** Copying [src] over a longer run of zero bytes. *)
Lemma copy_make (src : list byte) (n : nat) :
  GoBytes.copy (GoBytes.make (length src + n)) src = src ++ GoBytes.make n.
Proof.
  unfold GoBytes.copy.
  rewrite firstn_all2 by (unfold GoBytes.make; rewrite repeat_length; lia).
  now rewrite skipn_make.
Qed.

(** Copying [src] over a run of [src ++ more]'s first bytes. *)
Lemma copy_prefix (dst src more : list byte) :
  length dst = length src ->
  GoBytes.copy dst (src ++ more) = src.
Proof.
  intros Hlen. unfold GoBytes.copy.
  rewrite firstn_exact by assumption.
  rewrite skipn_all2 by (rewrite length_app; lia).
  apply app_nil_r.
Qed.

Lemma length_bytes_of_uint64 (v : Z) :
  length (BigEndian.bytes_of_uint64 v) = 8%nat.
Proof. reflexivity. Qed.

Lemma bytes_of_uint64_be (v : Z) :
  BigEndian.bytes_of_uint64 v = be_bytes 8 v.
Proof. reflexivity. Qed.

(* ================================================================= *)
(** * Big-endian integers *)

Ltac bit_cases n :=
  repeat match goal with
    | |- context [Z.testbit (Z.ones ?k) ?m] =>
        first [ rewrite (Z.ones_spec_low k m) by lia
              | rewrite (Z.ones_spec_high k m) by lia
              | rewrite (Z.testbit_neg_r (Z.ones k) m) by lia ]
    | |- context [Z.testbit (Z.shiftr ?v ?k) ?m] =>
        first [ rewrite (Z.shiftr_spec v k m) by lia
              | rewrite (Z.testbit_neg_r (Z.shiftr v k) m) by lia ]
    end;
  rewrite ?andb_false_r, ?andb_true_r, ?orb_false_r, ?orb_false_l;
  try reflexivity; try (f_equal; lia).

(** Reading back the eight bytes [PutUint64] writes gives the value, reduced
    to 64 bits. *)
Lemma Uint64_bytes_of_uint64 (v : Z) (rest : list byte) :
  BigEndian.Uint64 (BigEndian.bytes_of_uint64 v ++ rest) = Uint64.wrap v.
Proof.
  unfold BigEndian.Uint64, BigEndian.bytes_of_uint64, Uint64.wrap,
    Uint64.modulus.
  cbn [nth app].
  rewrite !byte.unsigned_of_Z. unfold byte.wrap.
  rewrite <- !Z.land_ones by lia.
  apply Z.bits_inj'; intros n Hn.
  rewrite ?Z.lor_spec, ?Z.shiftl_spec, ?Z.land_spec by lia.
  assert (Hcase : n < 8 \/ 8 <= n < 16 \/ 16 <= n < 24 \/ 24 <= n < 32
                  \/ 32 <= n < 40 \/ 40 <= n < 48 \/ 48 <= n < 56
                  \/ 56 <= n < 64 \/ 64 <= n) by lia.
  destruct Hcase as [?|[?|[?|[?|[?|[?|[?|[?|?]]]]]]]]; bit_cases n.
Qed.

Lemma Uint64_wrap_small (v : Z) : Uint64.in_range v -> Uint64.wrap v = v.
Proof. unfold Uint64.in_range, Uint64.wrap. intros. now apply Z.mod_small. Qed.

Lemma Uint64_not_spec (h : Z) :
  Uint64.in_range h -> Uint64.not h = Uint64.modulus - 1 - h.
Proof.
  unfold Uint64.in_range, Uint64.not, Uint64.wrap, Z.lnot. intros Hr.
  replace (Z.pred (- h))
    with (Uint64.modulus - 1 - h + (-1) * Uint64.modulus) by lia.
  rewrite Z.mod_add by (unfold Uint64.modulus; lia).
  apply Z.mod_small. lia.
Qed.

Lemma Uint64_not_range (h : Z) :
  Uint64.in_range h -> Uint64.in_range (Uint64.not h).
Proof.
  intros Hr. rewrite Uint64_not_spec by assumption.
  unfold Uint64.in_range in *. lia.
Qed.

Lemma Uint64_not_involutive (h : Z) :
  Uint64.in_range h -> Uint64.not (Uint64.not h) = h.
Proof.
  intros Hr. rewrite (Uint64_not_spec (Uint64.not h))
    by now apply Uint64_not_range.
  rewrite Uint64_not_spec by assumption. lia.
Qed.

(* ================================================================= *)
(** * The diff key and value layouts *)

Lemma startDiffKeyLength_eq : state.startDiffKeyLength = 40%nat.
Proof. reflexivity. Qed.

(** The key is the subnetID, the eight big-endian bytes of the complemented
    height, and what [copy] moves of the node identifier's bytes into the
    [len(nodeID)] bytes reserved for them. *)
Lemma marshalDiffKey_layout `{Decls}
  (subnetID : ids.ID) (height : Z) (nodeID : ids_NodeID) :
  ids.wf_ID subnetID ->
  state.marshalDiffKey subnetID height nodeID =
  subnetID ++ BigEndian.bytes_of_uint64 (Uint64.not height)
    ++ GoBytes.copy (GoBytes.make (ids_NodeID_len nodeID))
         (ids_NodeID_Bytes nodeID).
Proof.
  unfold ids.wf_ID. intros Hwf.
  unfold state.marshalDiffKey, state.packIterableHeight_at,
    state.packIterableHeight, BigEndian.PutUint64, GoBytes.copy_at, ids.Bytes.
  set (n := ids_NodeID_len nodeID).
  set (b8 := BigEndian.bytes_of_uint64 (Uint64.not height)).
  replace (state.startDiffKeyLength + n)%nat
    with (length subnetID + (length b8 + n))%nat
    by (rewrite Hwf; reflexivity).
  rewrite copy_make.
  rewrite (firstn_exact subnetID), (skipn_exact subnetID)
    by (now rewrite Hwf).
  rewrite copy_make.
  rewrite (app_assoc subnetID b8).
  rewrite (firstn_exact (subnetID ++ b8)), (skipn_exact (subnetID ++ b8))
    by (rewrite length_app, Hwf; reflexivity).
  now rewrite <- app_assoc.
Qed.

Lemma marshalStartDiffKey_layout (subnetID : ids.ID) (height : Z) :
  ids.wf_ID subnetID ->
  state.marshalStartDiffKey subnetID height =
  subnetID ++ BigEndian.bytes_of_uint64 (Uint64.not height).
Proof.
  unfold ids.wf_ID. intros Hwf.
  unfold state.marshalStartDiffKey, state.packIterableHeight_at,
    state.packIterableHeight, BigEndian.PutUint64, ids.Bytes.
  set (b8 := BigEndian.bytes_of_uint64 (Uint64.not height)).
  replace state.startDiffKeyLength
    with (length subnetID + (length b8 + 0))%nat
    by (rewrite Hwf; reflexivity).
  rewrite copy_make.
  rewrite (firstn_exact subnetID), (skipn_exact subnetID)
    by (now rewrite Hwf).
  rewrite copy_make. cbn [GoBytes.make repeat].
  now rewrite app_nil_r.
Qed.

(** The invariant stated at [marshalStartDiffKey]: its result is a prefix of
    [marshalDiffKey] called with the same arguments. *)
Lemma marshalStartDiffKey_prefix `{Decls}
  (subnetID : ids.ID) (height : Z) (nodeID : ids_NodeID) :
  ids.wf_ID subnetID ->
  exists rest,
    state.marshalDiffKey subnetID height nodeID
    = state.marshalStartDiffKey subnetID height ++ rest.
Proof.
  intros Hwf. rewrite marshalDiffKey_layout, marshalStartDiffKey_layout
    by assumption.
  eexists. now rewrite <- app_assoc.
Qed.

Lemma copy_make_exact (src : list byte) :
  GoBytes.copy (GoBytes.make (length src)) src = src.
Proof.
  pose proof (copy_make src 0) as E.
  rewrite Nat.add_0_r in E. rewrite E. apply app_nil_r.
Qed.

(** Past the length guard the key is cut at fixed offsets. *)
Lemma unmarshalDiffKey_long `{Decls} (key : list byte) :
  (state.startDiffKeyLength <= length key)%nat ->
  state.unmarshalDiffKey key =
  (firstn ids.IDLen key,
   Uint64.not (BigEndian.Uint64 (skipn ids.IDLen key)),
   ids_NodeIDFromBytes (skipn state.diffKeyNodeIDOffset key),
   None).
Proof.
  intros Hlen. unfold state.unmarshalDiffKey.
  destruct (Nat.ltb_spec (length key) state.startDiffKeyLength); [lia |].
  unfold state.unpackIterableHeight, GoBytes.copy.
  rewrite startDiffKeyLength_eq in Hlen.
  rewrite (@skipn_all2 _ (length key) ids.Empty) by (cbn; lia).
  rewrite app_nil_r. reflexivity.
Qed.

Lemma unmarshalDiffKey_short `{Decls} (key : list byte) :
  (length key < state.startDiffKeyLength)%nat ->
  state.unmarshalDiffKey key =
  (ids.Empty, 0, ids_EmptyNodeID, Some state.errUnexpectedZeroLenghtNodeID).
Proof.
  intros Hlen. unfold state.unmarshalDiffKey.
  destruct (Nat.ltb_spec (length key) state.startDiffKeyLength);
    [reflexivity | lia].
Qed.

(** C2. Decoding an encoded diff key succeeds and gives back the subnetID,
    the height (un-flipped) and the nodeID; decoding an encoded weight diff
    succeeds and gives back a diff with the same Decrease flag and Amount. *)
Theorem diff_codec_roundtrip `{D : Decls} {L : NodeIDLaws D} :
  (forall (subnetID : ids.ID) (height : Z) (nodeID : ids_NodeID),
      ids.wf_ID subnetID -> Uint64.in_range height ->
      state.unmarshalDiffKey (state.marshalDiffKey subnetID height nodeID)
      = (subnetID, height, nodeID, None))
  /\ (forall diff : state.ValidatorWeightDiff,
        Uint64.in_range (state.Amount diff) ->
        state.unmarshalWeightDiff (state.marshalWeightDiff diff)
        = (Some diff, None)).
Proof.
  split.
  - intros subnetID height nodeID Hwf Hh.
    rewrite marshalDiffKey_layout by assumption.
    rewrite ids_NodeID_len_Bytes, copy_make_exact.
    unfold ids.wf_ID in Hwf.
    rewrite unmarshalDiffKey_long
      by (rewrite !length_app, Hwf, length_bytes_of_uint64,
            startDiffKeyLength_eq; unfold ids.IDLen; lia).
    rewrite firstn_exact, skipn_exact by (now rewrite Hwf).
    rewrite Uint64_bytes_of_uint64.
    rewrite Uint64_wrap_small by now apply Uint64_not_range.
    rewrite Uint64_not_involutive by assumption.
    rewrite app_assoc, skipn_exact
      by (rewrite length_app, Hwf; reflexivity).
    now rewrite ids_NodeIDFromBytes_Bytes.
  - intros [decrease amount] Hr. cbn [state.Amount] in Hr.
    unfold state.unmarshalWeightDiff, state.marshalWeightDiff.
    cbn [state.Decrease state.Amount].
    assert (Hlayout :
      firstn database.BoolSize
        (if decrease
         then GoBytes.store 0 (GoBytes.make state.weightValueLength)
                database.BoolTrue
         else GoBytes.make state.weightValueLength)
      ++ BigEndian.PutUint64
           (skipn database.BoolSize
              (if decrease
               then GoBytes.store 0 (GoBytes.make state.weightValueLength)
                      database.BoolTrue
               else GoBytes.make state.weightValueLength)) amount
      = (if decrease then Byte.x01 else Byte.x00)
          :: BigEndian.bytes_of_uint64 amount ++ []).
    { destruct decrease; reflexivity. }
    rewrite Hlayout.
    cbn [length app Nat.eqb negb state.weightValueLength database.BoolSize
           database.Uint64Size Nat.add BigEndian.bytes_of_uint64 skipn nth].
    change (BigEndian.Uint64 _)
      with (BigEndian.Uint64 (BigEndian.bytes_of_uint64 amount ++ [])).
    rewrite Uint64_bytes_of_uint64, Uint64_wrap_small by assumption.
    destruct decrease; reflexivity.
Qed.

(** C4, as the code has it.  The malformed-key error, with the zero subnetID,
    height 0 and the empty nodeID, is returned for every key shorter than the
    40-byte start key.  A key of 59 bytes is accepted: no error, subnetID
    the first 32 bytes, height the complement of the next 8 bytes read
    big-endian, nodeID made of the remaining 19 bytes. *)
Theorem unmarshalDiffKey_length_guard `{Decls} (key : list byte) :
  ((length key < 40)%nat ->
   state.unmarshalDiffKey key =
   (ids.Empty, 0, ids_EmptyNodeID, Some state.errUnexpectedZeroLenghtNodeID))
  /\ (length key = 59%nat ->
      state.unmarshalDiffKey key =
      (firstn 32 key,
       Uint64.not (BigEndian.Uint64 (skipn 32 key)),
       ids_NodeIDFromBytes (skipn 40 key),
       None)
      /\ length (skipn 40 key) = 19%nat).
Proof.
  split.
  - intros Hlen. now apply unmarshalDiffKey_short.
  - intros Hlen. split.
    + apply unmarshalDiffKey_long. rewrite startDiffKeyLength_eq. lia.
    + rewrite length_skipn. lia.
Qed.

(* ================================================================= *)
(** * Big-endian bytes sort like the numbers they encode *)

Lemma lex_lt_app_prefix (p a b : list byte) :
  lex_lt a b -> lex_lt (p ++ a) (p ++ b).
Proof. intros L. induction p; simpl; [exact L | now constructor 3]. Qed.

Lemma lex_lt_app_same_length (a b c d : list byte) :
  length a = length b -> lex_lt a b -> lex_lt (a ++ c) (b ++ d).
Proof.
  intros Hlen L. induction L; simpl in *.
  - discriminate.
  - now constructor.
  - constructor 3. apply IHL. congruence.
Qed.

Lemma length_be_bytes (n : nat) (v : Z) : length (be_bytes n v) = n.
Proof. induction n; simpl; congruence. Qed.

(** Two numbers that agree above their [n] low-order bytes compare as their
    [n] big-endian bytes do. *)
Lemma be_bytes_lt (n : nat) :
  forall u v : Z,
    0 <= u < v ->
    u / 2 ^ (8 * Z.of_nat n) = v / 2 ^ (8 * Z.of_nat n) ->
    lex_lt (be_bytes n u) (be_bytes n v).
Proof.
  induction n as [|n IH]; intros u v Huv Hhigh.
  - change (2 ^ (8 * Z.of_nat 0)) with 1 in Hhigh.
    rewrite !Z.div_1_r in Hhigh. lia.
  - cbn [be_bytes].
    set (P := 2 ^ (8 * Z.of_nat n)) in *.
    assert (HP : 0 < P) by (apply Z.pow_pos_nonneg; lia).
    replace (2 ^ (8 * Z.of_nat (S n))) with (P * 256) in Hhigh
      by (subst P; rewrite Nat2Z.inj_succ;
          replace (8 * Z.succ (Z.of_nat n)) with (8 * Z.of_nat n + 8) by lia;
          rewrite Z.pow_add_r by lia; reflexivity).
    rewrite <- !Z.div_div in Hhigh by lia.
    rewrite !Z.shiftr_div_pow2 by lia. fold P.
    assert (Hle : u / P <= v / P) by (apply Z.div_le_mono; lia).
    destruct (Z.eq_dec (u / P) (v / P)) as [Heq | Hne].
    + rewrite Heq. constructor 3. now apply IH.
    + constructor 2. rewrite !byte.unsigned_of_Z. unfold byte.wrap.
      change (2 ^ 8) with 256.
      pose proof (Z.div_mod (u / P) 256 ltac:(lia)).
      pose proof (Z.div_mod (v / P) 256 ltac:(lia)).
      lia.
Qed.

Lemma bytes_of_uint64_lt (u v : Z) :
  Uint64.in_range u -> Uint64.in_range v -> u < v ->
  lex_lt (BigEndian.bytes_of_uint64 u) (BigEndian.bytes_of_uint64 v).
Proof.
  unfold Uint64.in_range, Uint64.modulus. intros Hu Hv Huv.
  rewrite !bytes_of_uint64_be. apply be_bytes_lt; [lia |].
  change (2 ^ (8 * Z.of_nat 8)) with (2 ^ 64).
  now rewrite !Z.div_small by lia.
Qed.

Lemma Compare_gt_iff (a b : list byte) :
  GoBytes.Compare a b = 1 <-> lex_lt b a.
Proof. rewrite <- Compare_lt_iff, (Compare_flip b a). lia. Qed.

(** C3. For heights h1 < h2 and the same subnetID and nodeID, the key of h1
    is lexicographically strictly greater than the key of h2
    ([bytes.Compare] gives 1): bytes 32 to 39 of a key are the big-endian
    bytes of the complemented height. *)
Theorem marshalDiffKey_descending `{Decls}
  (subnetID : ids.ID) (nodeID : ids_NodeID) (h1 h2 : Z) :
  ids.wf_ID subnetID ->
  Uint64.in_range h1 -> Uint64.in_range h2 -> h1 < h2 ->
  GoBytes.Compare (state.marshalDiffKey subnetID h1 nodeID)
    (state.marshalDiffKey subnetID h2 nodeID) = 1
  /\ lex_lt (state.marshalDiffKey subnetID h2 nodeID)
       (state.marshalDiffKey subnetID h1 nodeID)
  /\ firstn 8 (skipn 32 (state.marshalDiffKey subnetID h1 nodeID))
     = BigEndian.bytes_of_uint64 (Uint64.modulus - 1 - h1)
  /\ firstn 8 (skipn 32 (state.marshalDiffKey subnetID h2 nodeID))
     = BigEndian.bytes_of_uint64 (Uint64.modulus - 1 - h2).
Proof.
  intros Hwf Hr1 Hr2 Hlt.
  assert (L : lex_lt (state.marshalDiffKey subnetID h2 nodeID)
                (state.marshalDiffKey subnetID h1 nodeID)).
  { rewrite !marshalDiffKey_layout by assumption.
    apply lex_lt_app_prefix, lex_lt_app_same_length; [reflexivity |].
    apply bytes_of_uint64_lt; try now apply Uint64_not_range.
    rewrite !Uint64_not_spec by assumption. lia. }
  split; [now apply Compare_gt_iff |]. split; [exact L |].
  rewrite !marshalDiffKey_layout by assumption.
  unfold ids.wf_ID in Hwf.
  rewrite !(skipn_exact subnetID) by (now rewrite Hwf).
  rewrite !firstn_exact by reflexivity.
  now rewrite !Uint64_not_spec by assumption.
Qed.

(* ================================================================= *)
(** * The theorems at work in the concrete setting *)

Lemma Sample_NodeIDLaws : NodeIDLaws Sample.decls.
Proof. split; reflexivity. Qed.

Lemma Less_strict_total_order_witness :
  state.Less Sample.s_a Sample.s_b = true
  /\ state.Less Sample.s_b Sample.s_c = true
  /\ state.Less Sample.s_a Sample.s_c = true
  /\ state.Less Sample.s_c Sample.s_a = false.
Proof.
  assert (Hab : state.Less Sample.s_a Sample.s_b = true) by reflexivity.
  assert (Hbc : state.Less Sample.s_b Sample.s_c = true) by reflexivity.
  destruct (@Less_strict_total_order Sample.decls)
    as (_ & Htrans & Htotal & _).
  pose proof (Htrans _ _ _ Hab Hbc) as Hac.
  assert (Hne : sort_key Sample.s_a <> sort_key Sample.s_c)
    by (vm_compute; discriminate).
  destruct (Htotal _ _ Hne) as [[_ Hca] | [Hac' _]].
  - repeat split; assumption.
  - rewrite Hac in Hac'. discriminate.
Defined.

Lemma diff_codec_roundtrip_witness :
  @state.unmarshalDiffKey Sample.decls
    (@state.marshalDiffKey Sample.decls (Sample.id_of Byte.x01) 5
       (Sample.node_of Byte.x07))
  = (Sample.id_of Byte.x01, 5, Sample.node_of Byte.x07, None)
  /\ state.unmarshalWeightDiff
       (state.marshalWeightDiff {| state.Decrease := true; state.Amount := 20 |})
     = (Some {| state.Decrease := true; state.Amount := 20 |}, None).
Proof.
  destruct (@diff_codec_roundtrip Sample.decls Sample_NodeIDLaws)
    as [Hkey Hvalue].
  split.
  - apply Hkey; [reflexivity |].
    unfold Uint64.in_range, Uint64.modulus. lia.
  - apply Hvalue. unfold Uint64.in_range, Uint64.modulus. simpl. lia.
Defined.

Lemma marshalDiffKey_descending_witness :
  GoBytes.Compare
    (@state.marshalDiffKey Sample.decls (Sample.id_of Byte.x01) 3
       (Sample.node_of Byte.x07))
    (@state.marshalDiffKey Sample.decls (Sample.id_of Byte.x01) 5
       (Sample.node_of Byte.x07)) = 1.
Proof.
  apply (@marshalDiffKey_descending Sample.decls (Sample.id_of Byte.x01)
           (Sample.node_of Byte.x07) 3 5).
  - reflexivity.
  - unfold Uint64.in_range, Uint64.modulus. lia.
  - unfold Uint64.in_range, Uint64.modulus. lia.
  - lia.
Defined.

(** C4 as stated fails: this 59-byte key is decoded without error, into a
    subnetID, the height 5 and a 19-byte nodeID. *)
Lemma unmarshalDiffKey_accepts_59_bytes :
  length Sample.key59 = 59%nat
  /\ snd (@state.unmarshalDiffKey Sample.decls Sample.key59) = None
  /\ @state.unmarshalDiffKey Sample.decls Sample.key59
     = (Sample.id_of Byte.x01, 5, repeat Byte.x07 19, None).
Proof. repeat split; vm_compute; reflexivity. Qed.

Lemma unmarshalDiffKey_length_guard_witness :
  @state.unmarshalDiffKey Sample.decls (repeat Byte.x01 39)
  = (ids.Empty, 0, [], Some state.errUnexpectedZeroLenghtNodeID)
  /\ @state.unmarshalDiffKey Sample.decls Sample.key59
     = (firstn 32 Sample.key59,
        Uint64.not (BigEndian.Uint64 (skipn 32 Sample.key59)),
        skipn 40 Sample.key59,
        None).
Proof.
  split.
  - apply (proj1 (@unmarshalDiffKey_length_guard Sample.decls
                    (repeat Byte.x01 39))).
    simpl. lia.
  - apply (proj2 (@unmarshalDiffKey_length_guard Sample.decls Sample.key59)).
    reflexivity.
Defined.







(* ================================================================= *)
(** * Further facts about keys and values *)

Lemma lex_lt_app_iff (a b c d : list byte) :
  length a = length b ->
  lex_lt (a ++ c) (b ++ d) <-> lex_lt a b \/ (a = b /\ lex_lt c d).
Proof.
  revert b; induction a as [|x a IH]; intros [|y b] Hlen; simpl in *;
    try discriminate.
  - split; [auto | intros [L | [_ L]]; [inversion L | exact L]].
  - injection Hlen as Hlen. split.
    + inversion 1; subst.
      * left. now constructor.
      * apply IH in H1; [| assumption].
        destruct H1 as [L | [-> L]];
          [left; now constructor 3 | right; split; [reflexivity | exact L]].
    + intros [L | [E L]].
      * inversion L; subst; [now constructor |].
        constructor 3. apply IH; auto.
      * injection E as -> ->. constructor 3. apply IH; auto.
Qed.

Lemma lex_lt_asym (a b : list byte) : lex_lt a b -> lex_lt b a -> False.
Proof.
  intros Hab Hba. exact (lex_lt_irrefl a (lex_lt_trans _ _ _ Hab Hba)).
Qed.

Lemma bytes_of_uint64_inj (u v : Z) :
  Uint64.in_range u -> Uint64.in_range v ->
  BigEndian.bytes_of_uint64 u = BigEndian.bytes_of_uint64 v -> u = v.
Proof.
  intros Hu Hv E.
  rewrite <- (Uint64_wrap_small u Hu), <- (Uint64_wrap_small v Hv).
  rewrite <- (Uint64_bytes_of_uint64 u []), <- (Uint64_bytes_of_uint64 v []).
  now rewrite E.
Qed.

Lemma bytes_of_uint64_lt_iff (u v : Z) :
  Uint64.in_range u -> Uint64.in_range v ->
  lex_lt (BigEndian.bytes_of_uint64 u) (BigEndian.bytes_of_uint64 v) <-> u < v.
Proof.
  intros Hu Hv. split; [| now apply bytes_of_uint64_lt].
  intros L. destruct (Z.lt_total u v) as [? | [-> | Hgt]]; [assumption | |].
  - now apply lex_lt_irrefl in L.
  - exfalso. apply (lex_lt_asym _ _ L). now apply bytes_of_uint64_lt.
Qed.

(** With a node identifier type that keeps its laws the key is the
    concatenation of its three fields. *)
Lemma marshalDiffKey_fields `{D : Decls} {L : NodeIDLaws D}
  (subnetID : ids.ID) (height : Z) (nodeID : ids_NodeID) :
  ids.wf_ID subnetID ->
  state.marshalDiffKey subnetID height nodeID =
  subnetID ++ BigEndian.bytes_of_uint64 (Uint64.not height)
    ++ ids_NodeID_Bytes nodeID.
Proof.
  intros Hwf. rewrite marshalDiffKey_layout by assumption.
  now rewrite ids_NodeID_len_Bytes, copy_make_exact.
Qed.

Lemma unmarshalDiffKey_fields `{D : Decls}
  (subnetID : ids.ID) (v : Z) (rest : list byte) :
  ids.wf_ID subnetID ->
  state.unmarshalDiffKey (subnetID ++ BigEndian.bytes_of_uint64 v ++ rest) =
  (subnetID, Uint64.not (Uint64.wrap v), ids_NodeIDFromBytes rest, None).
Proof.
  unfold ids.wf_ID. intros Hwf.
  rewrite unmarshalDiffKey_long
    by (rewrite !length_app, Hwf, length_bytes_of_uint64,
          startDiffKeyLength_eq; unfold ids.IDLen; lia).
  rewrite (firstn_exact subnetID), (skipn_exact subnetID) by (now rewrite Hwf).
  rewrite Uint64_bytes_of_uint64.
  rewrite app_assoc, skipn_exact by (rewrite length_app, Hwf; reflexivity).
  reflexivity.
Qed.

Lemma marshalWeightDiff_layout (diff : state.ValidatorWeightDiff) :
  state.marshalWeightDiff diff =
  (if state.Decrease diff then Byte.x01 else Byte.x00)
    :: BigEndian.bytes_of_uint64 (state.Amount diff).
Proof.
  unfold state.marshalWeightDiff. destruct (state.Decrease diff); reflexivity.
Qed.

Lemma byte_testbit_high (b : byte) (m : Z) :
  8 <= m -> Z.testbit (byte.unsigned b) m = false.
Proof.
  intros Hm. pose proof (byte.unsigned_range b) as Hr.
  destruct (Z.eq_dec (byte.unsigned b) 0) as [-> | Hne];
    [apply Z.testbit_0_l |].
  apply Z.bits_above_log2; [lia |].
  apply Z.lt_le_trans with 8; [| lia].
  apply Z.log2_lt_pow2; lia.
Qed.

Ltac byte_bits :=
  repeat match goal with
    | |- context [Z.testbit (Z.ones ?k) ?m] =>
        first [ rewrite (Z.ones_spec_low k m) by lia
              | rewrite (Z.ones_spec_high k m) by lia ]
    | |- context [Z.testbit (byte.unsigned ?b) ?m] =>
        first [ rewrite (byte_testbit_high b m) by lia
              | rewrite (Z.testbit_neg_r (byte.unsigned b) m) by lia ]
    end;
  rewrite ?andb_false_r, ?andb_true_r, ?orb_false_r, ?orb_false_l;
  try reflexivity; try (f_equal; lia).

(** Writing back the value read from eight bytes gives the eight bytes. *)
Lemma bytes_of_uint64_Uint64 (b0 b1 b2 b3 b4 b5 b6 b7 : byte)
  (rest : list byte) :
  BigEndian.bytes_of_uint64
    (BigEndian.Uint64 (b0 :: b1 :: b2 :: b3 :: b4 :: b5 :: b6 :: b7 :: rest))
  = [b0; b1; b2; b3; b4; b5; b6; b7].
Proof.
  unfold BigEndian.bytes_of_uint64, BigEndian.Uint64. cbn [nth].
  repeat f_equal; apply byte.unsigned_inj;
    rewrite byte.unsigned_of_Z; unfold byte.wrap;
    rewrite <- Z.land_ones by lia;
    apply Z.bits_inj'; intros n Hn;
    rewrite ?Z.land_spec, ?Z.shiftr_spec, ?Z.lor_spec, ?Z.shiftl_spec by lia;
    (assert (Hcase : n < 8 \/ 8 <= n) by lia);
    destruct Hcase; byte_bits.
Qed.

Lemma Uint64_in_range (bs : list byte) :
  (8 <= length bs)%nat -> Uint64.in_range (BigEndian.Uint64 bs).
Proof.
  intros Hlen.
  do 8 (destruct bs as [|? bs]; [simpl in Hlen; lia |]).
  match goal with
  | |- Uint64.in_range (BigEndian.Uint64 ?l) =>
      pose proof (Uint64_bytes_of_uint64 (BigEndian.Uint64 l) []) as E
  end.
  rewrite bytes_of_uint64_Uint64 in E. cbn [app] in E.
  assert (E' : BigEndian.Uint64 (b :: b0 :: b1 :: b2 :: b3 :: b4 :: b5 :: b6 :: bs)
               = BigEndian.Uint64 [b; b0; b1; b2; b3; b4; b5; b6])
    by reflexivity.
  rewrite E', E. unfold Uint64.wrap, Uint64.in_range.
  apply Z.mod_pos_bound. reflexivity.
Qed.

(** X1. The invariant stated at [marshalStartDiffKey]: the key of
    [marshalDiffKey] is the start key of the same subnetID and height
    followed by the bytes of the nodeID; the start key has 40 bytes and the
    key 40 bytes more than the nodeID. *)
Theorem start_key_prefix_and_lengths `{D : Decls} {L : NodeIDLaws D}
  (subnetID : ids.ID) (height : Z) (nodeID : ids_NodeID) :
  ids.wf_ID subnetID ->
  state.marshalDiffKey subnetID height nodeID
  = state.marshalStartDiffKey subnetID height ++ ids_NodeID_Bytes nodeID
  /\ length (state.marshalStartDiffKey subnetID height) = 40%nat
  /\ length (state.marshalDiffKey subnetID height nodeID)
     = (40 + ids_NodeID_len nodeID)%nat.
Proof.
  intros Hwf.
  rewrite marshalDiffKey_fields, marshalStartDiffKey_layout by assumption.
  unfold ids.wf_ID in Hwf.
  rewrite !length_app, Hwf, length_bytes_of_uint64, ids_NodeID_len_Bytes.
  split; [now rewrite <- app_assoc |]. split; reflexivity.
Qed.

(** X2. [unpackIterableHeight] undoes [packIterableHeight] on any buffer of
    at least eight bytes, and packing touches the first eight bytes only:
    the buffer keeps its length and its bytes from offset 8 on. *)
Theorem packIterableHeight_roundtrip (key : list byte) (height : Z) :
  (8 <= length key)%nat -> Uint64.in_range height ->
  state.unpackIterableHeight (state.packIterableHeight key height) = height
  /\ length (state.packIterableHeight key height) = length key
  /\ skipn 8 (state.packIterableHeight key height) = skipn 8 key.
Proof.
  intros Hlen Hr.
  assert (E : state.packIterableHeight key height
              = BigEndian.bytes_of_uint64 (Uint64.not height) ++ skipn 8 key).
  { unfold state.packIterableHeight, BigEndian.PutUint64, GoBytes.copy.
    rewrite firstn_all2 by (rewrite length_bytes_of_uint64; exact Hlen).
    now rewrite length_bytes_of_uint64. }
  rewrite E. unfold state.unpackIterableHeight.
  rewrite Uint64_bytes_of_uint64.
  rewrite Uint64_wrap_small by now apply Uint64_not_range.
  rewrite Uint64_not_involutive by assumption.
  split; [reflexivity |]. split.
  - rewrite length_app, length_bytes_of_uint64, length_skipn. lia.
  - now rewrite skipn_exact by reflexivity.
Qed.

(** X3. [unmarshalWeightDiff] fails, with no diff, exactly on values whose
    length is not 9; a 9-byte value always decodes, to an amount within
    uint64 and to a decrease exactly when its first byte is 0x01. *)
Theorem unmarshalWeightDiff_cases (value : list byte) :
  (length value <> 9%nat ->
   state.unmarshalWeightDiff value
   = (None, Some state.errUnexpectedWeightValueLength))
  /\ (length value = 9%nat ->
      exists diff,
        state.unmarshalWeightDiff value = (Some diff, None)
        /\ Uint64.in_range (state.Amount diff)
        /\ (state.Decrease diff = true <-> nth 0 value Byte.x00 = Byte.x01)).
Proof.
  unfold state.unmarshalWeightDiff. split; intros Hlen.
  - destruct (Nat.eqb_spec (length value) state.weightValueLength) as [E | E];
      [contradiction | reflexivity].
  - destruct (Nat.eqb_spec (length value) state.weightValueLength) as [E | E];
      [| contradiction].
    eexists. split; [reflexivity |]. cbn [state.Amount state.Decrease]. split.
    + apply Uint64_in_range. rewrite length_skipn, Hlen. cbn. lia.
    + unfold database.BoolTrue. split.
      * apply Byte.byte_dec_bl.
      * intros ->. reflexivity.
Qed.

(** X4. Re-encoding a decoded 9-byte value gives the value back with its
    first byte normalised to 0x01 (decrease) or 0x00 (anything else); so a
    value whose first byte is 0x00 or 0x01 is given back as it is. *)
Theorem marshalWeightDiff_unmarshalWeightDiff (value : list byte) :
  length value = 9%nat ->
  exists diff,
    state.unmarshalWeightDiff value = (Some diff, None)
    /\ state.marshalWeightDiff diff
       = (if Byte.eqb (nth 0 value Byte.x00) Byte.x01
          then Byte.x01 else Byte.x00) :: skipn 1 value
    /\ (nth 0 value Byte.x00 = Byte.x00 \/ nth 0 value Byte.x00 = Byte.x01 ->
        state.marshalWeightDiff diff = value).
Proof.
  intros Hlen.
  do 9 (destruct value as [|? value]; [discriminate |]).
  destruct value; [| discriminate].
  eexists. split; [reflexivity |].
  rewrite marshalWeightDiff_layout.
  cbn [state.Decrease state.Amount nth skipn database.BoolSize
         database.BoolTrue].
  rewrite bytes_of_uint64_Uint64. split; [reflexivity |].
  intros [-> | ->]; reflexivity.
Qed.

(** X5. Encoding has no collisions: two diff keys are equal only for the
    same subnetID, height and nodeID, and two encoded weight diffs only for
    the same diff. *)
Theorem diff_codec_injective `{D : Decls} {L : NodeIDLaws D} :
  (forall (s1 s2 : ids.ID) (h1 h2 : Z) (n1 n2 : ids_NodeID),
      ids.wf_ID s1 -> ids.wf_ID s2 ->
      Uint64.in_range h1 -> Uint64.in_range h2 ->
      state.marshalDiffKey s1 h1 n1 = state.marshalDiffKey s2 h2 n2 ->
      s1 = s2 /\ h1 = h2 /\ n1 = n2)
  /\ (forall d1 d2 : state.ValidatorWeightDiff,
        Uint64.in_range (state.Amount d1) ->
        Uint64.in_range (state.Amount d2) ->
        state.marshalWeightDiff d1 = state.marshalWeightDiff d2 -> d1 = d2).
Proof.
  split.
  - intros s1 s2 h1 h2 n1 n2 W1 W2 R1 R2 E.
    apply (f_equal state.unmarshalDiffKey) in E.
    rewrite !marshalDiffKey_fields, !unmarshalDiffKey_fields in E
      by assumption.
    rewrite !Uint64_wrap_small, !Uint64_not_involutive in E
      by (assumption || now apply Uint64_not_range).
    rewrite !ids_NodeIDFromBytes_Bytes in E.
    injection E as -> -> ->. auto.
  - intros [f1 a1] [f2 a2] R1 R2 E. cbn [state.Amount] in R1, R2.
    rewrite !marshalWeightDiff_layout in E.
    cbn [state.Decrease state.Amount] in E.
    injection E as Ef Ea.
    assert (a1 = a2).
    { apply bytes_of_uint64_inj; try assumption.
      unfold BigEndian.bytes_of_uint64. congruence. }
    subst a2. f_equal. destruct f1, f2; congruence.
Qed.

(** X6. How diff keys sort: [bytes.Compare] puts one key before another
    exactly when its subnetID is lexicographically smaller, or the subnetIDs
    are equal and its height is the larger one, or subnetID and height are
    equal and its nodeID bytes are lexicographically smaller. *)
Theorem diff_key_order `{D : Decls} {L : NodeIDLaws D}
  (s1 s2 : ids.ID) (h1 h2 : Z) (n1 n2 : ids_NodeID) :
  ids.wf_ID s1 -> ids.wf_ID s2 ->
  Uint64.in_range h1 -> Uint64.in_range h2 ->
  GoBytes.Compare (state.marshalDiffKey s1 h1 n1)
    (state.marshalDiffKey s2 h2 n2) = -1
  <-> lex_lt s1 s2
      \/ (s1 = s2
          /\ (h2 < h1
              \/ (h1 = h2
                  /\ lex_lt (ids_NodeID_Bytes n1) (ids_NodeID_Bytes n2)))).
Proof.
  intros W1 W2 R1 R2.
  rewrite Compare_lt_iff, !marshalDiffKey_fields by assumption.
  unfold ids.wf_ID in W1, W2.
  rewrite lex_lt_app_iff by congruence.
  rewrite lex_lt_app_iff by reflexivity.
  rewrite bytes_of_uint64_lt_iff by now apply Uint64_not_range.
  rewrite !Uint64_not_spec by assumption.
  split.
  - intros [Ls | [Es [Lh | [Eh Ln]]]]; [now left | right; split; auto ..].
    + left. lia.
    + right. split; [| exact Ln].
      apply bytes_of_uint64_inj in Eh;
        [lia | unfold Uint64.in_range in *; lia ..].
  - intros [Ls | [Es [Lh | [Eh Ln]]]]; [now left | right; split; auto ..].
    + left. lia.
    + right. subst h2. split; [reflexivity | exact Ln].
Qed.

(** X7. The start key of a height bounds the scan from below: within a
    subnet, [marshalStartDiffKey(subnetID, h)] sorts at or before the key of
    a diff exactly when that diff's height is at most [h]. *)
Theorem start_key_bounds_heights `{D : Decls} {L : NodeIDLaws D}
  (subnetID : ids.ID) (h h' : Z) (nodeID : ids_NodeID) :
  ids.wf_ID subnetID -> Uint64.in_range h -> Uint64.in_range h' ->
  GoBytes.Compare (state.marshalStartDiffKey subnetID h)
    (state.marshalDiffKey subnetID h' nodeID) <> 1
  <-> h' <= h.
Proof.
  intros W R R'.
  rewrite Compare_gt_iff, marshalDiffKey_fields, marshalStartDiffKey_layout
    by assumption.
  rewrite <- (app_nil_r (BigEndian.bytes_of_uint64 (Uint64.not h))).
  rewrite lex_lt_app_iff by reflexivity.
  rewrite lex_lt_app_iff by reflexivity.
  rewrite bytes_of_uint64_lt_iff by now apply Uint64_not_range.
  rewrite !Uint64_not_spec by assumption.
  split.
  - intros Hn. destruct (Z_le_gt_dec h' h) as [? | Hgt]; [assumption |].
    exfalso. apply Hn. right. split; [reflexivity |]. left. lia.
  - intros Hle [Ls | [_ [Lh | [_ Ln]]]].
    + now apply lex_lt_irrefl in Ls.
    + lia.
    + inversion Ln.
Qed.

(* ================================================================= *)
(** * Further facts about the staker lifecycle *)










(* ================================================================= *)
(** * Image names *)

Lemma Byte_eqb_spec (x y : byte) : reflect (x = y) (Byte.eqb x y).
Proof.
  destruct (Byte.eqb x y) eqn:E; constructor.
  - now apply Byte.byte_dec_bl.
  - intros ->. now rewrite Byte.byte_dec_lb in E.
Qed.

Lemma Split_cons (s : list byte) (sep : byte) :
  exists part parts, strings.Split s sep = part :: parts.
Proof.
  destruct s as [|c s]; simpl; [eauto |].
  destruct (Byte.eqb c sep); [eauto |].
  destruct (strings.Split s sep); eauto.
Qed.

(** Joining the pieces with the separator gives the string back. *)
Lemma Join_Split (s : list byte) (sep : byte) :
  strings.Join (strings.Split s sep) [sep] = s.
Proof.
  induction s as [|c s IH]; [reflexivity |].
  cbn [strings.Split].
  destruct (Split_cons s sep) as (part & parts & E). rewrite E in *.
  destruct (Byte_eqb_spec c sep) as [-> | Hne].
  - change (strings.Join ([] :: part :: parts) [sep])
      with ([] ++ [sep] ++ strings.Join (part :: parts) [sep]).
    now rewrite IH.
  - destruct parts as [|p ps].
    + simpl in *. now rewrite IH.
    + change (strings.Join ((c :: part) :: p :: ps) [sep])
        with (c :: (part ++ [sep] ++ strings.Join (p :: ps) [sep])).
      change (strings.Join (part :: p :: ps) [sep])
        with (part ++ [sep] ++ strings.Join (p :: ps) [sep]) in IH.
      now rewrite IH.
Qed.

(** There is one more piece than there are separators. *)
Lemma length_Split (s : list byte) (sep : byte) :
  length (strings.Split s sep) = S (count_occ Byte.byte_eq_dec s sep).
Proof.
  induction s as [|c s IH]; [reflexivity |].
  cbn [strings.Split count_occ].
  destruct (Split_cons s sep) as (part & parts & E). rewrite E in *.
  destruct (Byte_eqb_spec c sep) as [-> | Hne];
    destruct (Byte.byte_eq_dec _ _); try congruence; simpl in *; congruence.
Qed.

Lemma Contains_app (a b : list byte) (sep : byte) :
  strings.Contains (a ++ b) sep
  = strings.Contains a sep || strings.Contains b sep.
Proof. unfold strings.Contains. apply existsb_app. Qed.

(** No piece contains the separator. *)
Lemma Split_pieces (s : list byte) (sep : byte) :
  Forall (fun part => strings.Contains part sep = false)
    (strings.Split s sep).
Proof.
  induction s as [|c s IH]; [repeat constructor |].
  cbn [strings.Split].
  destruct (Split_cons s sep) as (part & parts & E). rewrite E in *.
  inversion IH as [| ? ? Hpart Hparts]; subst.
  destruct (Byte_eqb_spec c sep) as [-> | Hne].
  - constructor; [reflexivity | now constructor].
  - constructor; [| assumption].
    unfold strings.Contains in *. cbn [existsb]. rewrite Hpart.
    destruct (Byte_eqb_spec sep c); [congruence | reflexivity].
Qed.

Lemma Contains_count (s : list byte) (sep : byte) :
  strings.Contains s sep = false <-> count_occ Byte.byte_eq_dec s sep = 0%nat.
Proof.
  unfold strings.Contains. induction s as [|c s IH]; [tauto |].
  cbn [existsb count_occ].
  destruct (Byte_eqb_spec sep c); destruct (Byte.byte_eq_dec c sep);
    try congruence; simpl; [split; discriminate | exact IH].
Qed.

(** X13. [getBaseImageName] fails exactly on names without '@' that hold
    three or more ':'; it then returns the empty name and an error that
    reports the name it was given. *)
Theorem getBaseImageName_error (imageName : list byte) :
  (snd (bootstrapmonitor.getBaseImageName imageName) <> None
   <-> strings.Contains imageName bootstrapmonitor.at_sign = false
       /\ (3 <= count_occ Byte.byte_eq_dec imageName bootstrapmonitor.colon)%nat)
  /\ (snd (bootstrapmonitor.getBaseImageName imageName) <> None ->
      bootstrapmonitor.getBaseImageName imageName
      = ([], Some (bootstrapmonitor.errUnexpectedImageNameFormat imageName))).
Proof.
  unfold bootstrapmonitor.getBaseImageName.
  destruct (strings.Contains imageName bootstrapmonitor.at_sign).
  - simpl. split; [split; [congruence | intros [? _]; discriminate] |].
    congruence.
  - rewrite length_Split.
    destruct (count_occ Byte.byte_eq_dec imageName bootstrapmonitor.colon)
      as [|[|[|n]]]; simpl.
    + split; [split; [congruence | intros [_ ?]; lia] | congruence].
    + split; [split; [congruence | intros [_ ?]; lia] | congruence].
    + split; [split; [congruence | intros [_ ?]; lia] | congruence].
    + split; [| reflexivity].
      split; [intros _; split; [reflexivity | lia] | discriminate].
Qed.

(** X14. A base image name is a prefix of the image name it was taken from,
    cut at the end of the name, at an '@' or at a ':'; it holds no '@'; and
    a name without '@' and without ':' is returned as it is. *)
Theorem getBaseImageName_prefix (imageName : list byte) :
  snd (bootstrapmonitor.getBaseImageName imageName) = None ->
  (exists rest,
      imageName = fst (bootstrapmonitor.getBaseImageName imageName) ++ rest
      /\ (rest = []
          \/ (exists rest', rest = bootstrapmonitor.at_sign :: rest')
          \/ (exists rest', rest = bootstrapmonitor.colon :: rest')))
  /\ strings.Contains (fst (bootstrapmonitor.getBaseImageName imageName))
       bootstrapmonitor.at_sign = false
  /\ (strings.Contains imageName bootstrapmonitor.at_sign = false ->
      strings.Contains imageName bootstrapmonitor.colon = false ->
      fst (bootstrapmonitor.getBaseImageName imageName) = imageName).
Proof.
  unfold bootstrapmonitor.getBaseImageName.
  destruct (strings.Contains imageName bootstrapmonitor.at_sign) eqn:Hat.
  - intros _. cbn [fst].
    pose proof (Join_Split imageName bootstrapmonitor.at_sign) as HJ.
    pose proof (Split_pieces imageName bootstrapmonitor.at_sign) as HP.
    destruct (Split_cons imageName bootstrapmonitor.at_sign)
      as (h & tl & E).
    rewrite E in *. cbn [nth]. pose proof (Forall_inv HP) as Hh.
    cbv beta in Hh.
    split; [| split; [exact Hh | discriminate]].
    destruct tl as [|p ps].
    + exists []. simpl in HJ. split; [now rewrite app_nil_r | auto].
    + eexists. split; [symmetry; exact HJ |].
      right. left. eexists. reflexivity.
  - pose proof (Join_Split imageName bootstrapmonitor.colon) as HJ.
    assert (Hpre : forall a b, imageName = a ++ b ->
              strings.Contains a bootstrapmonitor.at_sign = false).
    { intros a b Eab. rewrite Eab, Contains_app in Hat.
      now apply orb_false_iff in Hat. }
    destruct (strings.Split imageName bootstrapmonitor.colon)
      as [|h [|p1 [|p2 [|p3 ps]]]] eqn:E; cbn [length fst snd nth firstn].
    + discriminate.
    + intros _. split; [exists []; split; [now rewrite app_nil_r | auto] |].
      split; [exact Hat | reflexivity].
    + intros _. cbn [strings.Join] in HJ.
      split; [eexists; split; [symmetry; exact HJ |] |].
      * right. right. eexists. reflexivity.
      * split; [apply (Hpre _ _ (eq_sym HJ)) |].
        intros _ Hc. rewrite <- HJ, !Contains_app in Hc.
        unfold strings.Contains at 2 in Hc. cbn [existsb] in Hc.
        rewrite Byte.byte_dec_lb in Hc by reflexivity.
        rewrite orb_true_r in Hc. discriminate.
    + intros _.
      change (strings.Join [h; p1; p2] [bootstrapmonitor.colon])
        with (h ++ [bootstrapmonitor.colon] ++ p1
                ++ [bootstrapmonitor.colon] ++ p2) in HJ.
      change (strings.Join [h; p1] [bootstrapmonitor.colon])
        with (h ++ [bootstrapmonitor.colon] ++ p1).
      assert (HJ' : imageName
                    = (h ++ [bootstrapmonitor.colon] ++ p1)
                        ++ bootstrapmonitor.colon :: p2)
        by (rewrite <- HJ, <- !app_assoc; reflexivity).
      split; [eexists; split; [exact HJ' |] |].
      * right. right. eexists. reflexivity.
      * split; [apply (Hpre _ _ HJ') |].
        intros _ Hc. rewrite HJ', !Contains_app in Hc.
        unfold strings.Contains at 2 in Hc. cbn [existsb] in Hc.
        rewrite Byte.byte_dec_lb in Hc by reflexivity.
        rewrite orb_true_r in Hc. discriminate.
    + discriminate.
Qed.

(* ================================================================= *)
(** * Further facts: ordering keys and short diff keys *)

(** X15. [Less] reads nothing of a staker but NextTime, Priority and TxID:
    replacing either argument by a record with the same three fields does
    not change the answer, and two records that agree on them are ordered
    neither way, whatever their other fields. *)
Theorem Less_reads_sort_key_only `{Decls} (a a' b b' : state.Staker) :
  sort_key a = sort_key a' -> sort_key b = sort_key b' ->
  state.Less a b = state.Less a' b'
  /\ (sort_key a = sort_key b ->
      state.Less a b = false /\ state.Less b a = false).
Proof.
  unfold sort_key. intros [= Ea1 Ea2 Ea3] [= Eb1 Eb2 Eb3]. split.
  - unfold state.Less. now rewrite Ea1, Ea2, Ea3, Eb1, Eb2, Eb3.
  - intros [= E1 E2 E3]. split; apply Less_false_iff; unfold spec_staker_lt;
      rewrite E1, E2, E3; intros [? | [_ [? | [_ L]]]]; try lia;
      now apply lex_lt_irrefl in L.
Qed.

(** X16. [unmarshalDiffKey] returns an error exactly for keys shorter than
    40 bytes.  A key of exactly 40 bytes is accepted: the start key of a
    subnetID and height decodes, without error, to that subnetID and height
    and to the nodeID built from no bytes. *)
Theorem unmarshalDiffKey_error_iff `{Decls} :
  (forall key : list byte,
      snd (state.unmarshalDiffKey key) <> None <-> (length key < 40)%nat)
  /\ (forall (subnetID : ids.ID) (height : Z),
        ids.wf_ID subnetID -> Uint64.in_range height ->
        state.unmarshalDiffKey (state.marshalStartDiffKey subnetID height)
        = (subnetID, height, ids_NodeIDFromBytes [], None)).
Proof.
  split.
  - intros key. destruct (Nat.lt_ge_cases (length key) 40) as [Hlt | Hge].
    + rewrite unmarshalDiffKey_short by (rewrite startDiffKeyLength_eq; lia).
      simpl. split; [auto | discriminate].
    + rewrite unmarshalDiffKey_long by (rewrite startDiffKeyLength_eq; lia).
      simpl. split; [congruence | lia].
  - intros subnetID height Hwf Hr.
    rewrite marshalStartDiffKey_layout by assumption.
    rewrite <- (app_nil_r (BigEndian.bytes_of_uint64 (Uint64.not height))).
    rewrite unmarshalDiffKey_fields by assumption.
    rewrite Uint64_wrap_small by now apply Uint64_not_range.
    now rewrite Uint64_not_involutive.
Qed.

Lemma length_copy (dst src : list byte) :
  length (GoBytes.copy dst src) = length dst.
Proof.
  unfold GoBytes.copy. rewrite length_app, length_firstn, length_skipn. lia.
Qed.

(** X17. The transaction ID made for an unprotected validator is a 32-byte
    ID; for a nodeID of at most 32 bytes it is the nodeID followed by
    zeroes, so two nodeIDs of the same length, at most 32 bytes, get the
    same ID only if they have the same bytes. *)
Theorem dummyTxID_padding `{Decls} (vdrID : ids_NodeID) :
  ids.wf_ID (node.dummyTxID vdrID)
  /\ ((length (ids_NodeID_Bytes vdrID) <= 32)%nat ->
      node.dummyTxID vdrID
      = ids_NodeID_Bytes vdrID
          ++ GoBytes.make (32 - length (ids_NodeID_Bytes vdrID)))
  /\ (forall other : ids_NodeID,
        (length (ids_NodeID_Bytes vdrID) <= 32)%nat ->
        length (ids_NodeID_Bytes other) = length (ids_NodeID_Bytes vdrID) ->
        node.dummyTxID vdrID = node.dummyTxID other ->
        ids_NodeID_Bytes vdrID = ids_NodeID_Bytes other).
Proof.
  assert (Hpad : forall n : ids_NodeID,
            (length (ids_NodeID_Bytes n) <= 32)%nat ->
            node.dummyTxID n
            = ids_NodeID_Bytes n
                ++ GoBytes.make (32 - length (ids_NodeID_Bytes n))).
  { intros n Hn. unfold node.dummyTxID, ids.Empty, ids.IDLen.
    replace 32%nat
      with (length (ids_NodeID_Bytes n)
            + (32 - length (ids_NodeID_Bytes n)))%nat at 1 by lia.
    apply copy_make. }
  split; [| split].
  - unfold ids.wf_ID, node.dummyTxID. rewrite length_copy. reflexivity.
  - apply Hpad.
  - intros other Hlen Hsame E.
    rewrite !Hpad in E by lia. rewrite Hsame in E.
    now apply app_inv_tail in E.
Qed.

(* ================================================================= *)
(** * The further facts at work in the concrete setting *)

Lemma in_range_5 : Uint64.in_range 5.
Proof. unfold Uint64.in_range, Uint64.modulus. lia. Qed.

Lemma in_range_3 : Uint64.in_range 3.
Proof. unfold Uint64.in_range, Uint64.modulus. lia. Qed.

Lemma start_key_prefix_and_lengths_witness :
  @state.marshalDiffKey Sample.decls (Sample.id_of Byte.x01) 5
    (Sample.node_of Byte.x07)
  = state.marshalStartDiffKey (Sample.id_of Byte.x01) 5
      ++ Sample.node_of Byte.x07
  /\ length (state.marshalStartDiffKey (Sample.id_of Byte.x01) 5) = 40%nat
  /\ length (@state.marshalDiffKey Sample.decls (Sample.id_of Byte.x01) 5
               (Sample.node_of Byte.x07)) = 60%nat.
Proof.
  apply (@start_key_prefix_and_lengths Sample.decls Sample_NodeIDLaws
           (Sample.id_of Byte.x01) 5 (Sample.node_of Byte.x07)).
  reflexivity.
Defined.

Lemma packIterableHeight_roundtrip_witness :
  state.unpackIterableHeight
    (state.packIterableHeight (repeat Byte.xff 10) 5) = 5
  /\ length (state.packIterableHeight (repeat Byte.xff 10) 5) = 10%nat
  /\ skipn 8 (state.packIterableHeight (repeat Byte.xff 10) 5)
     = [Byte.xff; Byte.xff].
Proof.
  apply (packIterableHeight_roundtrip (repeat Byte.xff 10) 5).
  - simpl. lia.
  - exact in_range_5.
Defined.

Lemma unmarshalWeightDiff_cases_witness :
  state.unmarshalWeightDiff [Byte.x01; Byte.x02]
  = (None, Some state.errUnexpectedWeightValueLength)
  /\ exists diff,
       state.unmarshalWeightDiff Sample.value9 = (Some diff, None)
       /\ Uint64.in_range (state.Amount diff)
       /\ (state.Decrease diff = true
           <-> nth 0 Sample.value9 Byte.x00 = Byte.x01).
Proof.
  split.
  - apply (proj1 (unmarshalWeightDiff_cases [Byte.x01; Byte.x02])).
    simpl. lia.
  - apply (proj2 (unmarshalWeightDiff_cases Sample.value9)). reflexivity.
Defined.

Lemma marshalWeightDiff_unmarshalWeightDiff_witness :
  exists diff,
    state.unmarshalWeightDiff Sample.value9 = (Some diff, None)
    /\ state.marshalWeightDiff diff = Sample.value9.
Proof.
  destruct (marshalWeightDiff_unmarshalWeightDiff Sample.value9 eq_refl)
    as (diff & Hd & _ & Hback).
  exists diff. split; [exact Hd |]. apply Hback. right. reflexivity.
Defined.

Lemma diff_codec_injective_witness :
  (@state.marshalDiffKey Sample.decls (Sample.id_of Byte.x01) 5
     (Sample.node_of Byte.x07)
   = @state.marshalDiffKey Sample.decls (Sample.id_of Byte.x01) 5
       (Sample.node_of Byte.x07) ->
   Sample.id_of Byte.x01 = Sample.id_of Byte.x01 /\ 5 = 5
   /\ Sample.node_of Byte.x07 = Sample.node_of Byte.x07)
  /\ @state.marshalDiffKey Sample.decls (Sample.id_of Byte.x01) 5
       (Sample.node_of Byte.x07)
     <> @state.marshalDiffKey Sample.decls (Sample.id_of Byte.x01) 3
          (Sample.node_of Byte.x07).
Proof.
  destruct (@diff_codec_injective Sample.decls Sample_NodeIDLaws)
    as [Hkey _].
  split.
  - apply Hkey; (reflexivity || exact in_range_5).
  - intros E.
    apply Hkey in E; [| reflexivity | reflexivity | exact in_range_5
                      | exact in_range_3].
    destruct E as (_ & E & _). discriminate E.
Defined.

Lemma diff_key_order_witness :
  GoBytes.Compare
    (@state.marshalDiffKey Sample.decls (Sample.id_of Byte.x01) 5
       (Sample.node_of Byte.x07))
    (@state.marshalDiffKey Sample.decls (Sample.id_of Byte.x01) 3
       (Sample.node_of Byte.x02)) = -1.
Proof.
  apply (@diff_key_order Sample.decls Sample_NodeIDLaws
           (Sample.id_of Byte.x01) (Sample.id_of Byte.x01) 5 3
           (Sample.node_of Byte.x07) (Sample.node_of Byte.x02));
    try reflexivity; try exact in_range_5; try exact in_range_3.
  right. split; [reflexivity |]. left. lia.
Defined.

Lemma start_key_bounds_heights_witness :
  GoBytes.Compare (state.marshalStartDiffKey (Sample.id_of Byte.x01) 5)
    (@state.marshalDiffKey Sample.decls (Sample.id_of Byte.x01) 3
       (Sample.node_of Byte.x07)) <> 1.
Proof.
  apply (@start_key_bounds_heights Sample.decls Sample_NodeIDLaws
           (Sample.id_of Byte.x01) 5 3 (Sample.node_of Byte.x07));
    try reflexivity; try exact in_range_5; try exact in_range_3.
  lia.
Defined.






Lemma getBaseImageName_error_witness :
  bootstrapmonitor.getBaseImageName Sample.image_odd
  = ([], Some (bootstrapmonitor.errUnexpectedImageNameFormat Sample.image_odd)).
Proof.
  apply (proj2 (getBaseImageName_error Sample.image_odd)).
  apply (proj2 (proj1 (getBaseImageName_error Sample.image_odd))).
  split; [reflexivity |]. vm_compute. lia.
Defined.

Lemma getBaseImageName_prefix_witness :
  strings.Contains
    (fst (bootstrapmonitor.getBaseImageName Sample.image_digest))
    bootstrapmonitor.at_sign = false
  /\ fst (bootstrapmonitor.getBaseImageName Sample.image_plain)
     = Sample.image_plain.
Proof.
  split.
  - apply (getBaseImageName_prefix Sample.image_digest). reflexivity.
  - apply (getBaseImageName_prefix Sample.image_plain); reflexivity.
Defined.

Lemma Less_reads_sort_key_only_witness :
  state.Less Sample.s_a Sample.s_b
  = state.Less (state.set_EndTime Sample.s_a 7) Sample.s_b
  /\ state.Less Sample.s_a (state.set_EndTime Sample.s_a 7) = false.
Proof.
  split.
  - apply (@Less_reads_sort_key_only Sample.decls Sample.s_a
             (state.set_EndTime Sample.s_a 7) Sample.s_b Sample.s_b);
      reflexivity.
  - apply (proj2 (@Less_reads_sort_key_only Sample.decls Sample.s_a
                    Sample.s_a (state.set_EndTime Sample.s_a 7)
                    (state.set_EndTime Sample.s_a 7) eq_refl eq_refl)).
    reflexivity.
Defined.

Lemma unmarshalDiffKey_error_iff_witness :
  snd (@state.unmarshalDiffKey Sample.decls (repeat Byte.x01 39)) <> None
  /\ @state.unmarshalDiffKey Sample.decls
       (state.marshalStartDiffKey (Sample.id_of Byte.x01) 5)
     = (Sample.id_of Byte.x01, 5, [], None).
Proof.
  destruct (@unmarshalDiffKey_error_iff Sample.decls) as [Hiff Hstart].
  split.
  - apply Hiff. simpl. lia.
  - apply Hstart; [reflexivity | exact in_range_5].
Defined.

Lemma dummyTxID_padding_witness :
  @node.dummyTxID Sample.decls (Sample.node_of Byte.x07)
  = Sample.node_of Byte.x07 ++ GoBytes.make 12.
Proof.
  apply (proj1 (proj2 (@dummyTxID_padding Sample.decls
                         (Sample.node_of Byte.x07)))).
  simpl. lia.
Defined.
